(** * dmg_settings.py: the disk-image settings module of alphasvg

    The module is a settings file executed by the disk-image packaging
    tool.  It binds, at top level, the name [os] (by [import os.path]), the
    helper [base_dir] and the six settings [files], [symlinks],
    [icon_locations], [window_rect], [icon_size] and [volume_name].

    Python values are modelled as follows: [str] as [string], [int] as [Z],
    a tuple of two ints as [Z * Z], a [dict] with string keys as a
    [gmap string _] built by inserting the entries of the literal in source
    order.  The only input of the module is the working directory of the
    process, read by [os.path.abspath('.')]. *)

From Stdlib Require Import ZArith Ascii String.
From stdpp Require Import base gmap strings list fin_maps fin_sets.

Local Open Scope string_scope.
Local Set Warnings "-clear-no-such-hyp".

(* [simpl] unfolds [+:+] on a constructor. *)
Local Arguments String.append !_ _ : simpl nomatch.

(** ** The functions of [os.path] (posixpath) that the module calls *)

Module posixpath.

Definition sep : ascii := "/"%char.

(** [s.startswith('/')] *)
Definition startswith_sep (s : string) : bool :=
  match s with
  | String c _ => Ascii.eqb c sep
  | EmptyString => false
  end.

(** [s.endswith('/')] *)
Fixpoint endswith_sep (s : string) : bool :=
  match s with
  | EmptyString => false
  | String c EmptyString => Ascii.eqb c sep
  | String _ r => endswith_sep r
  end.

(** [isabs(s)]: [s.startswith('/')] *)
Definition isabs (s : string) : bool := startswith_sep s.

(** [join(a, b)] for one extra component:
    [if b.startswith('/'): path = b
     elif not path or path.endswith('/'): path += b
     else: path += '/' + b] *)
Definition join (a b : string) : string :=
  if startswith_sep b then b
  else if String.eqb a EmptyString || endswith_sep a then a +:+ b
  else a +:+ String sep b.

(** [p.rfind('/')], scanning from index [i] with [last] the index of the
    last separator seen so far ([-1] when there is none). *)
Fixpoint rfind_sep_from (i : Z) (last : Z) (p : string) : Z :=
  match p with
  | EmptyString => last
  | String c r =>
      rfind_sep_from (i + 1) (if Ascii.eqb c sep then i else last) r
  end.

Definition rfind_sep (p : string) : Z := rfind_sep_from 0 (-1) p.

(** [p[i:]] for [0 <= i] *)
Fixpoint slice_from (i : nat) (p : string) : string :=
  match i, p with
  | O, _ => p
  | S _, EmptyString => EmptyString
  | S j, String _ r => slice_from j r
  end.

(** [basename(p)]: [i = p.rfind('/') + 1; return p[i:]] *)
Definition basename (p : string) : string :=
  let i := (rfind_sep p + 1)%Z in
  slice_from (Z.to_nat i) p.

(** [path.split('/')] *)
Fixpoint split_sep (s : string) : list string :=
  match s with
  | EmptyString => [EmptyString]
  | String c r =>
      if Ascii.eqb c sep then EmptyString :: split_sep r
      else match split_sep r with
           | h :: t => String c h :: t
           | [] => [String c EmptyString]
           end
  end.

(** ['/'.join(comps)] *)
Fixpoint sep_join (comps : list string) : string :=
  match comps with
  | [] => EmptyString
  | [c] => c
  | c :: rest => c +:+ String sep (sep_join rest)
  end.

(** The number of leading slashes that [normpath] keeps: POSIX allows one
    or two initial slashes, three or more are treated as one. *)
Definition initial_slashes (path : string) : nat :=
  match path with
  | String c1 r1 =>
      if Ascii.eqb c1 sep then
        match r1 with
        | String c2 r2 =>
            if Ascii.eqb c2 sep then
              (if startswith_sep r2 then 1 else 2)%nat
            else 1%nat
        | EmptyString => 1%nat
        end
      else 0%nat
  | EmptyString => 0%nat
  end.

(** [new_comps[-1] == '..'] for a non-empty [new_comps] *)
Definition last_is_dotdot (new_comps : list string) : bool :=
  match last new_comps with
  | Some c => String.eqb c ".."
  | None => false
  end.

Definition is_nil {A} (l : list A) : bool :=
  match l with [] => true | _ => false end.

(** The body of the loop [for comp in comps] of [normpath]. *)
Definition normpath_step (slashes : nat) (new_comps : list string)
    (comp : string) : list string :=
  if String.eqb comp EmptyString || String.eqb comp "." then new_comps
  else if negb (String.eqb comp "..")
          || (Nat.eqb slashes 0 && is_nil new_comps)
          || (negb (is_nil new_comps) && last_is_dotdot new_comps)
  then new_comps ++ [comp]
  else if negb (is_nil new_comps) then removelast new_comps
  else new_comps.

Fixpoint repeat_sep (n : nat) : string :=
  match n with
  | O => EmptyString
  | S m => String sep (repeat_sep m)
  end.

(** [normpath(path)] *)
Definition normpath (path : string) : string :=
  if String.eqb path EmptyString then "."
  else
    let slashes := initial_slashes path in
    let comps := fold_left (normpath_step slashes) (split_sep path) [] in
    let path' := repeat_sep slashes +:+ sep_join comps in
    if String.eqb path' EmptyString then "." else path'.

(** [abspath(path)], with [cwd] the result of [os.getcwd()]:
    [if not isabs(path): path = join(cwd, path)
     return normpath(path)] *)
Definition abspath (cwd path : string) : string :=
  normpath (if isabs path then path else join cwd path).

End posixpath.

(** ** Python values and the module namespace *)

(** The dynamic values that the module binds. *)
#[warnings="-register-all"] Inductive value : Type :=
| VModule (name : string)
| VStr (s : string)
| VInt (n : Z)
| VTuple (items : list value)
| VDict (items : list (value * value)).

Definition int_pair (p : Z * Z) : value := VTuple [VInt p.1; VInt p.2].

Definition str_str_dict (m : gmap string string) : value :=
  VDict ((λ kv, (VStr kv.1, VStr kv.2)) <$> map_to_list m).

Definition str_pair_dict (m : gmap string (Z * Z)) : value :=
  VDict ((λ kv, (VStr kv.1, int_pair kv.2)) <$> map_to_list m).

(** Shapes of values. *)
Definition is_str (v : value) : bool :=
  match v with VStr _ => true | _ => false end.

Definition is_abs_path (v : value) : bool :=
  match v with VStr s => posixpath.isabs s | _ => false end.

Definition is_int (v : value) : bool :=
  match v with VInt _ => true | _ => false end.

Definition is_int_pair (v : value) : bool :=
  match v with VTuple [VInt _; VInt _] => true | _ => false end.

Definition is_pair_of_int_pairs (v : value) : bool :=
  match v with
  | VTuple [a; b] => is_int_pair a && is_int_pair b
  | _ => false
  end.

Definition is_dict_of (key_ok val_ok : value → bool) (v : value) : bool :=
  match v with
  | VDict items => forallb (λ kv, key_ok kv.1 && val_ok kv.2) items
  | _ => false
  end.

(** ** The module *)

Section dmg_settings.

(** The working directory of the process, as [os.getcwd()] returns it. *)
Variable cwd : string.

(** [base_dir = os.path.abspath('.')] *)
Definition base_dir : string := posixpath.abspath cwd ".".

(** [files = { join(base_dir, 'dist/gui_main.app'): 'gui_main.app',
               join(base_dir, 'dist/gui_main/_internal'): '_internal' }] *)
Definition files : gmap string string :=
  <[ posixpath.join base_dir "dist/gui_main/_internal" := "_internal" ]>
    (<[ posixpath.join base_dir "dist/gui_main.app" := "gui_main.app" ]> ∅).

End dmg_settings.

(** [symlinks = { 'Aplicaciones': '/Applications' }] *)
Definition symlinks : gmap string string :=
  <[ "Aplicaciones" := "/Applications" ]> ∅.

(** [icon_locations = { 'gui_main.app': (140, 120),
                        'Aplicaciones': (460, 120),
                        '_internal': (300, 400) }] *)
Definition icon_locations : gmap string (Z * Z) :=
  <[ "_internal" := (300, 400)%Z ]>
    (<[ "Aplicaciones" := (460, 120)%Z ]>
       (<[ "gui_main.app" := (140, 120)%Z ]> ∅)).

(** [window_rect = ((200, 200), (600, 350))] *)
Definition window_rect : (Z * Z) * (Z * Z) := ((200, 200), (600, 350))%Z.

(** [icon_size = 100] *)
Definition icon_size : Z := 100.

(** [volume_name = 'Instalador Transparente'] *)
Definition volume_name : string := "Instalador Transparente".

(** The names bound at top level once the module has run in working
    directory [cwd], in the order of their binding statements. *)
Definition module_globals (cwd : string) : list (string * value) :=
  [ ("os", VModule "os");
    ("base_dir", VStr (base_dir cwd));
    ("files", str_str_dict (files cwd));
    ("symlinks", str_str_dict symlinks);
    ("icon_locations", str_pair_dict icon_locations);
    ("window_rect", VTuple [int_pair window_rect.1; int_pair window_rect.2]);
    ("icon_size", VInt icon_size);
    ("volume_name", VStr volume_name) ].

Definition defined_names (cwd : string) : list string :=
  (module_globals cwd).*1.

(** [getattr(module, name)] *)
Fixpoint getattr (ns : list (string * value)) (name : string) : option value :=
  match ns with
  | [] => None
  | (n, v) :: rest => if String.eqb n name then Some v else getattr rest name
  end.

(** The six names of the packaging tool's schema. *)
Definition schema_names : list string :=
  [ "files"; "symlinks"; "icon_locations"; "window_rect"; "icon_size";
    "volume_name" ].

(** The module binds [name] to a value of the given shape. *)
Definition attr_has_shape (ns : list (string * value)) (name : string)
    (shape : value → bool) : bool :=
  match getattr ns name with
  | Some v => shape v
  | None => false
  end.

(** ** Label sets and window geometry *)

(** The labels of the content mapping: the values of [files]. *)
Definition content_labels (cwd : string) : gset string := map_img (files cwd).

(** The labels of the symlink mapping: the keys of [symlinks]. *)
Definition symlink_labels : gset string := dom symlinks.

(** The labels of the icon-placement mapping: the keys of [icon_locations]. *)
Definition placed_labels : gset string := dom icon_locations.

Definition rect_origin (r : (Z * Z) * (Z * Z)) : Z * Z := r.1.
Definition rect_width (r : (Z * Z) * (Z * Z)) : Z := r.2.1.
Definition rect_height (r : (Z * Z) * (Z * Z)) : Z := r.2.2.

(** A point in the coordinates of the window's content, whose origin is the
    window's corner, lies in the drawable area when it is inside the
    width-by-height extent of the window: [0 <= x < width] and
    [0 <= y < height]. *)
Definition in_drawable_area (r : (Z * Z) * (Z * Z)) (p : Z * Z) : bool :=
  (0 <=? p.1)%Z && (p.1 <? rect_width r)%Z
  && (0 <=? p.2)%Z && (p.2 <? rect_height r)%Z.

(** The point [q] lies in the rectangle [r], which extends from its origin
    by its width and its height. *)
Definition rect_contains (r : (Z * Z) * (Z * Z)) (q : Z * Z) : bool :=
  ((rect_origin r).1 <=? q.1)%Z && (q.1 <? (rect_origin r).1 + rect_width r)%Z
  && ((rect_origin r).2 <=? q.2)%Z
  && (q.2 <? (rect_origin r).2 + rect_height r)%Z.

(** ** Auxiliary predicates used in the statements below *)

(** [sep in s] *)
Fixpoint has_sep (s : string) : bool :=
  match s with
  | EmptyString => false
  | String c r => Ascii.eqb c posixpath.sep || has_sep r
  end.

(** A path component as [normpath] keeps them: a non-empty string without
    separator. *)
Definition comp_ok (c : string) : Prop :=
  c ≠ EmptyString ∧ has_sep c = false.

(** A component of a path in normal form: neither '.' nor '..'. *)
Definition proper_comp (c : string) : Prop :=
  comp_ok c ∧ c ≠ "." ∧ c ≠ "..".

(** * Properties *)

(** ** Checks of the [os.path] model on concrete paths *)

Example abspath_dot_1 : posixpath.abspath "/Users/dev/alphasvg" "." = "/Users/dev/alphasvg".
Proof. reflexivity. Qed.
Example abspath_dot_2 : posixpath.abspath "/" "." = "/".
Proof. reflexivity. Qed.
Example abspath_dot_3 : posixpath.abspath "//a/../b/./c/" "." = "//b/c".
Proof. reflexivity. Qed.
Example normpath_1 : posixpath.normpath "a/../../b" = "../b".
Proof. reflexivity. Qed.
Example normpath_2 : posixpath.normpath "///a//b/.." = "/a".
Proof. reflexivity. Qed.
Example normpath_3 : posixpath.normpath "/.." = "/".
Proof. reflexivity. Qed.
Example basename_1 : posixpath.basename "/a/b/c.app" = "c.app".
Proof. reflexivity. Qed.
Example basename_2 : posixpath.basename "/a/b/" = EmptyString.
Proof. reflexivity. Qed.
Example basename_3 : posixpath.basename "abc" = "abc".
Proof. reflexivity. Qed.
Example join_1 : posixpath.join "/" "dist/x" = "/dist/x".
Proof. reflexivity. Qed.
Example join_2 : posixpath.join "/a" "dist/x" = "/a/dist/x".
Proof. reflexivity. Qed.
Example join_3 : posixpath.join EmptyString "dist/x" = "dist/x".
Proof. reflexivity. Qed.

(** ** Strings *)

Section string_facts.

Lemma append_empty_r (a : string) : a +:+ EmptyString = a.
Proof. induction a as [|c a IH]; simpl; [done | by rewrite IH]. Qed.

Lemma append_assoc (a b c : string) : (a +:+ b) +:+ c = a +:+ (b +:+ c).
Proof. induction a as [|x a IH]; simpl; [done | by rewrite IH]. Qed.

Lemma append_inj_l (a x y : string) : a +:+ x = a +:+ y → x = y.
Proof.
  induction a as [|c a IH]; simpl; [done |].
  intros H. injection H as H. by apply IH.
Qed.

Lemma startswith_sep_append (a b : string) :
  posixpath.startswith_sep a = true →
  posixpath.startswith_sep (a +:+ b) = true.
Proof. by destruct a. Qed.

Lemma startswith_sep_nonempty (a : string) :
  posixpath.startswith_sep a = true → a ≠ EmptyString.
Proof. by destruct a. Qed.

End string_facts.

(** ** [os.path.join] *)

Section join_facts.

(** Joining a relative component appends it to a prefix that depends on
    the first argument only. *)
Lemma join_relative (a : string) :
  ∃ pre, (pre = a ∨ pre = a +:+ "/") ∧
    ∀ b, posixpath.startswith_sep b = false → posixpath.join a b = pre +:+ b.
Proof.
  destruct (String.eqb a EmptyString || posixpath.endswith_sep a) eqn:E.
  - exists a. split; [by left |].
    intros b Hb. unfold posixpath.join. by rewrite Hb, E.
  - exists (a +:+ "/"). split; [by right |].
    intros b Hb. unfold posixpath.join. rewrite Hb, E.
    by rewrite append_assoc.
Qed.

Lemma join_isabs (a b : string) :
  posixpath.isabs a = true → posixpath.isabs (posixpath.join a b) = true.
Proof.
  intros Ha. unfold posixpath.join, posixpath.isabs in *.
  destruct (posixpath.startswith_sep b) eqn:Hb; [done |].
  destruct (_ || _); by apply startswith_sep_append.
Qed.

Lemma join_relative_ne (a b1 b2 : string) :
  posixpath.startswith_sep b1 = false →
  posixpath.startswith_sep b2 = false →
  b1 ≠ b2 → posixpath.join a b1 ≠ posixpath.join a b2.
Proof.
  intros H1 H2 Hne. destruct (join_relative a) as (pre & _ & Hpre).
  rewrite (Hpre _ H1), (Hpre _ H2). intros E. by apply append_inj_l in E.
Qed.

End join_facts.

(** ** [os.path.basename] *)

Section basename_facts.

Lemma rfind_sep_from_no_sep (t : string) (i last : Z) :
  has_sep t = false → posixpath.rfind_sep_from i last t = last.
Proof.
  revert i last. induction t as [|c t IH]; intros i last H; simpl in *.
  - done.
  - apply orb_false_iff in H as [Hc Ht]. rewrite Hc. by apply IH.
Qed.

Lemma rfind_sep_from_append (a t : string) (i last : Z) :
  has_sep t = false →
  posixpath.rfind_sep_from i last (a +:+ String posixpath.sep t)
  = (i + Z.of_nat (String.length a))%Z.
Proof.
  revert i last. induction a as [|c a IH]; intros i last H; simpl.
  - rewrite rfind_sep_from_no_sep by done. lia.
  - rewrite IH by done. lia.
Qed.

Lemma slice_from_append (a t : string) :
  posixpath.slice_from (String.length a) (a +:+ t) = t.
Proof. induction a as [|c a IH]; simpl; [by destruct t | done]. Qed.

(** The basename of a path is what follows its last separator. *)
Lemma basename_append (a t : string) :
  has_sep t = false →
  posixpath.basename (a +:+ String posixpath.sep t) = t.
Proof.
  intros H. unfold posixpath.basename, posixpath.rfind_sep.
  rewrite rfind_sep_from_append by done.
  replace (Z.to_nat (0 + Z.of_nat (String.length a) + 1))
    with (String.length (a +:+ "/")).
  - rewrite <- (slice_from_append (a +:+ "/") t) at 2.
    by rewrite append_assoc.
  - clear H. induction a as [|c a IH]; simpl in *; [done | lia].
Qed.

End basename_facts.

(** ** [os.path.normpath] and [os.path.abspath] *)

Section abspath_facts.

Lemma initial_slashes_pos (p : string) :
  posixpath.startswith_sep p = true →
  ∃ k, posixpath.initial_slashes p = S k.
Proof.
  destruct p as [|c1 [|c2 r]]; simpl; intros H; [done | | ]; rewrite H.
  - by exists 0.
  - destruct (Ascii.eqb c2 posixpath.sep); [| by exists 0].
    destruct (posixpath.startswith_sep r); by eexists.
Qed.

(** [normpath] keeps an absolute path absolute. *)
Lemma normpath_isabs (p : string) :
  posixpath.isabs p = true → posixpath.isabs (posixpath.normpath p) = true.
Proof.
  unfold posixpath.isabs. intros H.
  destruct (initial_slashes_pos p H) as [k Hk].
  unfold posixpath.normpath. rewrite Hk.
  destruct p as [|c p]; [done |]. simpl. done.
Qed.

(** In an absolute working directory [abspath('.')] is absolute. *)
Lemma abspath_dot_isabs (cwd : string) :
  posixpath.isabs cwd = true →
  posixpath.isabs (posixpath.abspath cwd ".") = true.
Proof.
  intros H. unfold posixpath.abspath. simpl.
  by apply normpath_isabs, join_isabs.
Qed.

End abspath_facts.

(** ** The shape of the results of [os.path.normpath] *)

Section normpath_shape.

Lemma length_append (a b : string) :
  String.length (a +:+ b) = String.length a + String.length b.
Proof. induction a as [|c a IH]; simpl; [done | by rewrite IH]. Qed.

Lemma append_inj_r (a b s : string) : a +:+ s = b +:+ s → a = b.
Proof.
  revert b. induction a as [|c a IH]; intros [|d b] H; simpl in H.
  - done.
  - apply (f_equal String.length) in H. simpl in H.
    rewrite length_append in H. lia.
  - apply (f_equal String.length) in H. simpl in H.
    rewrite length_append in H. lia.
  - injection H as -> H. f_equal. by apply IH.
Qed.

Lemma endswith_sep_append (a b : string) :
  b ≠ EmptyString →
  posixpath.endswith_sep (a +:+ b) = posixpath.endswith_sep b.
Proof.
  intros Hb. induction a as [|c a IH]; simpl; [done |].
  destruct (a +:+ b) eqn:E; [| done].
  destruct a; simpl in E; [done | discriminate].
Qed.

Lemma endswith_sep_no_sep (s : string) :
  has_sep s = false → posixpath.endswith_sep s = false.
Proof.
  induction s as [|c s IH]; simpl; [done |].
  intros [Hc Hs]%orb_false_iff. destruct s; [done | by apply IH].
Qed.

Lemma split_sep_no_sep (s : string) :
  Forall (λ c, has_sep c = false) (posixpath.split_sep s).
Proof.
  induction s as [|c s IH]; simpl.
  - by constructor.
  - destruct (Ascii.eqb c posixpath.sep) eqn:E.
    + by constructor.
    + destruct (posixpath.split_sep s) as [|h t].
      * constructor; [| done]. simpl. by rewrite E.
      * inversion IH; subst. constructor; [| done]. simpl. by rewrite E.
Qed.

Lemma normpath_step_ok (k : nat) (acc : list string) (c : string) :
  has_sep c = false → Forall comp_ok acc →
  Forall comp_ok (posixpath.normpath_step k acc c).
Proof.
  intros Hc Hacc. unfold posixpath.normpath_step.
  destruct (String.eqb c EmptyString) eqn:E1; simpl; [done |].
  destruct (String.eqb c "."); simpl; [done |].
  destruct (_ || _ || _).
  - apply Forall_app. split; [done |]. constructor; [| done].
    split; [| done]. by apply String.eqb_neq.
  - destruct (negb _); [| done].
    clear -Hacc. induction Hacc as [|x l Hx Hl IH]; simpl; [done |].
    destruct l; [done |]. by constructor.
Qed.

Lemma normpath_fold_ok (k : nat) (cs acc : list string) :
  Forall (λ c, has_sep c = false) cs → Forall comp_ok acc →
  Forall comp_ok (fold_left (posixpath.normpath_step k) cs acc).
Proof.
  revert acc. induction cs as [|c cs IH]; intros acc Hcs Hacc; simpl.
  - done.
  - inversion Hcs; subst. apply IH; [done |]. by apply normpath_step_ok.
Qed.

Lemma sep_join_ok (cs : list string) :
  Forall comp_ok cs → cs ≠ [] →
  posixpath.sep_join cs ≠ EmptyString
  ∧ posixpath.endswith_sep (posixpath.sep_join cs) = false.
Proof.
  induction 1 as [|c cs [Hne Hc] Hcs IH]; intros Hnil; [done |].
  destruct cs as [|d cs].
  - simpl. split; [done |]. by apply endswith_sep_no_sep.
  - destruct IH as [IH1 IH2]; [done |].
    change (posixpath.sep_join (c :: d :: cs))
      with (c +:+ String posixpath.sep (posixpath.sep_join (d :: cs))).
    split.
    + destruct c; [done | discriminate].
    + rewrite endswith_sep_append by done.
      destruct (posixpath.sep_join (d :: cs)) as [|x r]; [done |].
      exact IH2.
Qed.

Lemma initial_slashes_le (p : string) :
  (posixpath.initial_slashes p ≤ 2)%nat.
Proof.
  destruct p as [|c1 [|c2 r]]; simpl; try lia.
  - destruct (Ascii.eqb c1 _); lia.
  - destruct (Ascii.eqb c1 _); [| lia].
    destruct (Ascii.eqb c2 _); [| lia].
    destruct (posixpath.startswith_sep r); lia.
Qed.

(** The result of [normpath] is not empty, and it ends with a separator
    only when it is '/' or '//'. *)
Lemma normpath_shape (p : string) :
  posixpath.normpath p ≠ EmptyString
  ∧ (posixpath.endswith_sep (posixpath.normpath p) = true →
     posixpath.normpath p = "/" ∨ posixpath.normpath p = "//").
Proof.
  unfold posixpath.normpath.
  destruct (String.eqb p EmptyString); [by split |].
  pose proof (initial_slashes_le p) as Hk.
  pose proof (normpath_fold_ok (posixpath.initial_slashes p)
                (posixpath.split_sep p) [] (split_sep_no_sep p)
                (Forall_nil_2 _)) as Hok.
  destruct (fold_left _ _ _) as [|c cs] eqn:Ecs.
  - destruct (posixpath.initial_slashes p) as [|[|[|k]]]; simpl;
      [by split | split; [done | by left] | split; [done | by right] | lia].
  - destruct (sep_join_ok (c :: cs) Hok) as [Hne Hend]; [done |].
    destruct (String.eqb _ EmptyString) eqn:E; [by split |].
    apply String.eqb_neq in E. split; [done |].
    rewrite endswith_sep_append by done. by rewrite Hend.
Qed.

(** On results of [normpath], [join] with a relative component is
    injective in its first argument. *)
Lemma join_normpath_inj (p1 p2 s : string) :
  posixpath.startswith_sep s = false →
  posixpath.join (posixpath.normpath p1) s
  = posixpath.join (posixpath.normpath p2) s →
  posixpath.normpath p1 = posixpath.normpath p2.
Proof.
  intros Hs. unfold posixpath.join. rewrite Hs.
  destruct (normpath_shape p1) as [Hne1 He1], (normpath_shape p2) as [Hne2 He2].
  apply String.eqb_neq in Hne1 as Hn1. apply String.eqb_neq in Hne2 as Hn2.
  rewrite Hn1, Hn2. simpl.
  destruct (posixpath.endswith_sep (posixpath.normpath p1)) eqn:E1,
           (posixpath.endswith_sep (posixpath.normpath p2)) eqn:E2; intros H.
  - by apply append_inj_r in H.
  - change (String posixpath.sep s) with ("/" +:+ s) in H.
    rewrite <- append_assoc in H. apply append_inj_r in H.
    rewrite H in E1. rewrite endswith_sep_append in E1 by done.
    destruct (He1 eq_refl) as [E | E]; rewrite E in H.
    + destruct (posixpath.normpath p2) as [|? [|]]; by simplify_eq/=.
    + destruct (posixpath.normpath p2) as [|? [|? [|]]]; by simplify_eq/=.
  - change (String posixpath.sep s) with ("/" +:+ s) in H.
    rewrite <- append_assoc in H. apply append_inj_r in H.
    destruct (He2 eq_refl) as [E | E]; rewrite E in H.
    + destruct (posixpath.normpath p1) as [|? [|]]; by simplify_eq/=.
    + destruct (posixpath.normpath p1) as [|? [|? [|]]]; by simplify_eq/=.
  - change (String posixpath.sep s) with ("/" +:+ s) in H.
    rewrite <- !append_assoc in H. apply append_inj_r in H.
    by apply append_inj_r in H.
Qed.

End normpath_shape.

(** ** The entries of the three mappings *)

Section mapping_facts.

Variable cwd : string.

Lemma files_keys_ne :
  posixpath.join (base_dir cwd) "dist/gui_main.app"
  ≠ posixpath.join (base_dir cwd) "dist/gui_main/_internal".
Proof. by apply join_relative_ne. Qed.

(** [files] has exactly the two entries of its literal. *)
Lemma files_lookup (p l : string) :
  files cwd !! p = Some l ↔
    (p = posixpath.join (base_dir cwd) "dist/gui_main.app"
     ∧ l = "gui_main.app")
    ∨ (p = posixpath.join (base_dir cwd) "dist/gui_main/_internal"
       ∧ l = "_internal").
Proof.
  unfold files. rewrite !lookup_insert_Some, lookup_empty.
  pose proof files_keys_ne as Hne. split.
  - intros [[<- <-] | [_ [[<- <-] | [_ ?]]]]; [by right | by left | done].
  - intros [[-> ->] | [-> ->]]; [| by left].
    right. split; [done |]. by left.
Qed.

Lemma files_to_list :
  map_to_list (files cwd) ≡ₚ
    [ (posixpath.join (base_dir cwd) "dist/gui_main/_internal", "_internal");
      (posixpath.join (base_dir cwd) "dist/gui_main.app", "gui_main.app") ].
Proof.
  unfold files. rewrite map_to_list_insert.
  - by rewrite map_to_list_insert, map_to_list_empty by apply lookup_empty.
  - rewrite lookup_insert_ne by apply files_keys_ne. apply lookup_empty.
Qed.

Lemma files_size : size (files cwd) = 2.
Proof.
  unfold files. rewrite map_size_insert_None.
  - by rewrite map_size_insert_None, map_size_empty by apply lookup_empty.
  - rewrite lookup_insert_ne by apply files_keys_ne. apply lookup_empty.
Qed.

Lemma content_labels_eq :
  content_labels cwd = {[ "gui_main.app"; "_internal" ]}.
Proof.
  apply set_eq. intros l. unfold content_labels.
  rewrite elem_of_map_img. setoid_rewrite files_lookup. set_solver.
Qed.

Lemma symlink_labels_eq : symlink_labels = {[ "Aplicaciones" ]}.
Proof.
  unfold symlink_labels, symlinks. rewrite dom_insert_L, dom_empty_L.
  set_solver.
Qed.

Lemma placed_labels_eq :
  placed_labels = {[ "gui_main.app"; "Aplicaciones"; "_internal" ]}.
Proof.
  unfold placed_labels, icon_locations.
  rewrite !dom_insert_L, dom_empty_L. set_solver.
Qed.

(** [icon_locations] has exactly the three entries of its literal. *)
Lemma icon_locations_lookup (l : string) (p : Z * Z) :
  icon_locations !! l = Some p ↔
    (l = "gui_main.app" ∧ p = (140, 120)%Z)
    ∨ (l = "Aplicaciones" ∧ p = (460, 120)%Z)
    ∨ (l = "_internal" ∧ p = (300, 400)%Z).
Proof.
  unfold icon_locations. rewrite !lookup_insert_Some, lookup_empty.
  split; [naive_solver |].
  intros [[-> ->] | [[-> ->] | [-> ->]]].
  - right. split; [done |]. right. split; [done |]. by left.
  - right. split; [done |]. by left.
  - by left.
Qed.

End mapping_facts.

(** ** Label sets *)

Lemma content_labels_placed (cwd : string) : content_labels cwd ⊆ placed_labels.
Proof. rewrite content_labels_eq, placed_labels_eq. set_solver. Qed.

(** C1: every label that is a value of [files] or a key of [symlinks] is a
    key of [icon_locations], in whatever working directory the module
    runs. *)
Theorem icon_labels_cover_content_and_symlinks (cwd : string) :
  content_labels cwd ∪ symlink_labels ⊆ placed_labels.
Proof.
  rewrite content_labels_eq, symlink_labels_eq, placed_labels_eq.
  set_solver.
Qed.

(** C10: the keys of [icon_locations] are exactly the values of [files]
    together with the keys of [symlinks]; no placed label is neither a
    content label nor a symlink label. *)
Theorem icon_labels_exactly_content_and_symlinks (cwd : string) :
  placed_labels = content_labels cwd ∪ symlink_labels
  ∧ placed_labels ⊆ content_labels cwd ∪ symlink_labels.
Proof.
  rewrite content_labels_eq, symlink_labels_eq, placed_labels_eq.
  split; set_solver.
Qed.

(** C7: the labels of [files] are pairwise distinct, both as the list of
    the values of its entries and entry by entry, and each of them is a key
    of [icon_locations]. *)
Theorem content_labels_distinct_and_placed (cwd : string) :
  NoDup (map_to_list (files cwd)).*2
  ∧ (∀ p1 p2 l,
       files cwd !! p1 = Some l → files cwd !! p2 = Some l → p1 = p2)
  ∧ (∀ p l, files cwd !! p = Some l → is_Some (icon_locations !! l)).
Proof.
  split; [| split].
  - rewrite files_to_list. simpl.
    apply NoDup_cons. split; [set_solver |]. apply NoDup_singleton.
  - intros p1 p2 l H1 H2.
    apply files_lookup in H1 as [[-> ->] | [-> ->]];
      apply files_lookup in H2 as [[-> ?] | [-> ?]]; done.
  - intros p l H. apply elem_of_dom. fold placed_labels.
    apply (content_labels_placed cwd). unfold content_labels.
    apply elem_of_map_img. by exists p.
Qed.

Lemma content_labels_distinct_and_placed_witness :
  files "/Users/dev/alphasvg" !! "/Users/dev/alphasvg/dist/gui_main.app"
    = Some "gui_main.app"
  ∧ is_Some (icon_locations !! "gui_main.app").
Proof.
  assert (files "/Users/dev/alphasvg" !! "/Users/dev/alphasvg/dist/gui_main.app"
          = Some "gui_main.app") as H by (by vm_compute).
  split; [exact H |].
  exact (proj2 (proj2 (content_labels_distinct_and_placed "/Users/dev/alphasvg"))
           _ _ H).
Defined.

(** ** Labels and source paths *)

(** C9: the label of every entry of [files] is the basename of its source
    path, in whatever working directory the module runs. *)
Theorem content_label_is_basename (cwd : string) :
  map_Forall (λ p l, posixpath.basename p = l) (files cwd).
Proof.
  intros p l H. destruct (join_relative (base_dir cwd)) as (pre & _ & Hpre).
  apply files_lookup in H as [[-> ->] | [-> ->]]; rewrite Hpre by done.
  - change "dist/gui_main.app"
      with ("dist" +:+ String posixpath.sep "gui_main.app").
    rewrite <- append_assoc. by apply basename_append.
  - change "dist/gui_main/_internal"
      with ("dist/gui_main" +:+ String posixpath.sep "_internal").
    rewrite <- append_assoc. by apply basename_append.
Qed.

Lemma content_label_is_basename_witness :
  posixpath.basename "/Users/dev/alphasvg/dist/gui_main/_internal"
  = "_internal".
Proof.
  apply (content_label_is_basename "/Users/dev/alphasvg"
           "/Users/dev/alphasvg/dist/gui_main/_internal" "_internal").
  by vm_compute.
Defined.

(** ** Window geometry *)

(** C3: the width and height of [window_rect] are positive, and [icon_size]
    is positive and at most the smaller of the two. *)
Theorem window_and_icon_size_positive :
  (0 < rect_width window_rect)%Z
  ∧ (0 < rect_height window_rect)%Z
  ∧ (0 < icon_size)%Z
  ∧ (icon_size ≤ Z.min (rect_width window_rect) (rect_height window_rect))%Z.
Proof. vm_compute. repeat split; discriminate. Qed.

(** C4, as stated, fails: [icon_locations] assigns (140, 120) to
    'gui_main.app', and that point is not within the rectangle with origin
    (200, 200) and size (600, 350) of [window_rect], whose x-range starts
    at 200 and whose y-range starts at 200. *)
Lemma gui_main_icon_not_in_window_rect :
  icon_locations !! "gui_main.app" = Some (140, 120)%Z
  ∧ window_rect = ((200, 200), (600, 350))%Z
  ∧ rect_contains window_rect (140, 120)%Z = false.
Proof. by vm_compute. Qed.

(** C4, amended: the coordinate (140, 120) that [icon_locations] assigns to
    'gui_main.app' lies within the width-by-height extent, 600 by 350, given
    by the size component of [window_rect]. *)
Theorem gui_main_icon_within_window_extent :
  icon_locations !! "gui_main.app" = Some (140, 120)%Z
  ∧ (0 ≤ 140 < rect_width window_rect)%Z
  ∧ (0 ≤ 120 < rect_height window_rect)%Z
  ∧ in_drawable_area window_rect (140, 120)%Z = true.
Proof. by vm_compute. Qed.

(** C2, as stated, fails: '_internal' is placed at (300, 400), whose
    y-coordinate is beyond the height 350 of the window. *)
Lemma internal_icon_outside_drawable_area :
  ¬ (∀ l p, icon_locations !! l = Some p →
            in_drawable_area window_rect p = true).
Proof.
  intros H. specialize (H "_internal" (300, 400)%Z).
  assert (icon_locations !! "_internal" = Some (300, 400)%Z) as E
    by (by vm_compute).
  specialize (H E). vm_compute in H. discriminate.
Qed.

(** C2, amended: every coordinate of [icon_locations] is a non-negative
    integer and every x-coordinate is within the window's width; every entry
    other than '_internal' lies within the window's width-by-height extent,
    and '_internal' is placed at (300, 400), below the window's height. *)
Theorem icon_coordinates_within_window_except_internal
    (l : string) (p : Z * Z) :
  icon_locations !! l = Some p →
  (0 ≤ p.1 < rect_width window_rect)%Z
  ∧ (0 ≤ p.2)%Z
  ∧ (l ≠ "_internal" → in_drawable_area window_rect p = true)
  ∧ (l = "_internal" →
     p = (300, 400)%Z ∧ (rect_height window_rect < p.2)%Z).
Proof.
  intros H.
  apply icon_locations_lookup in H as [[-> ->] | [[-> ->] | [-> ->]]];
    (split; [by vm_compute |]); (split; [by vm_compute |]);
    (split; [intros Hne | intros Heq]);
    try done; try (by vm_compute).
Qed.

Lemma icon_coordinates_within_window_except_internal_witness :
  (0 ≤ 460 < rect_width window_rect)%Z
  ∧ (0 ≤ 120)%Z
  ∧ ("Aplicaciones" ≠ "_internal" →
     in_drawable_area window_rect (460, 120)%Z = true)
  ∧ ("Aplicaciones" = "_internal" →
     (460, 120)%Z = (300, 400)%Z ∧ (rect_height window_rect < 120)%Z).
Proof.
  apply (icon_coordinates_within_window_except_internal
           "Aplicaciones" (460, 120)%Z).
  by vm_compute.
Defined.

(** ** The module namespace *)

Section namespace_facts.

Variable cwd : string.

Lemma defined_names_eq :
  defined_names cwd = "os" :: "base_dir" :: schema_names.
Proof. reflexivity. Qed.

Lemma getattr_files :
  getattr (module_globals cwd) "files" = Some (str_str_dict (files cwd)).
Proof. reflexivity. Qed.

(** Every key of [files] is an absolute path when the working directory
    is. *)
Lemma files_keys_isabs (p l : string) :
  posixpath.isabs cwd = true →
  files cwd !! p = Some l → posixpath.isabs p = true.
Proof.
  intros Habs H. apply abspath_dot_isabs in Habs. fold (base_dir cwd) in Habs.
  apply files_lookup in H as [[-> _] | [-> _]]; by apply join_isabs.
Qed.

Lemma files_shape :
  posixpath.isabs cwd = true →
  is_dict_of is_abs_path is_str (str_str_dict (files cwd)) = true.
Proof.
  intros Habs. unfold is_dict_of, str_str_dict.
  apply forallb_forall. intros kv Hin.
  apply list_elem_of_In, list_elem_of_fmap in Hin as ([p l] & -> & Hin).
  apply elem_of_map_to_list in Hin. simpl.
  by rewrite (files_keys_isabs p l Habs Hin).
Qed.

End namespace_facts.

(** C5, as stated, fails: the module does not define exactly the six names
    of the schema, it also binds [base_dir] (and [os]). *)
Lemma module_defines_more_than_schema_names :
  ¬ (∀ n, n ∈ defined_names "/Users/dev/alphasvg" ↔ n ∈ schema_names).
Proof.
  intros H. specialize (H "base_dir"). rewrite defined_names_eq in H.
  assert ("base_dir" ∈ schema_names) as Hin by (apply H; set_solver).
  unfold schema_names in Hin. set_solver.
Qed.

(** C5, amended: run in an absolute working directory, the module binds the
    six names of the schema, after [os] and [base_dir] and nothing else,
    each to a value of the stated shape: [files] a dict from absolute paths
    to strings, [symlinks] a dict from strings to strings,
    [icon_locations] a dict from strings to pairs of integers,
    [window_rect] a pair of pairs of integers, [icon_size] an integer and
    [volume_name] a string. *)
Theorem module_defines_schema_names_with_shapes (cwd : string) :
  posixpath.isabs cwd = true →
  defined_names cwd = "os" :: "base_dir" :: schema_names
  ∧ attr_has_shape (module_globals cwd) "files"
      (is_dict_of is_abs_path is_str) = true
  ∧ attr_has_shape (module_globals cwd) "symlinks"
      (is_dict_of is_str is_str) = true
  ∧ attr_has_shape (module_globals cwd) "icon_locations"
      (is_dict_of is_str is_int_pair) = true
  ∧ attr_has_shape (module_globals cwd) "window_rect"
      is_pair_of_int_pairs = true
  ∧ attr_has_shape (module_globals cwd) "icon_size" is_int = true
  ∧ attr_has_shape (module_globals cwd) "volume_name" is_str = true.
Proof.
  intros Habs. split; [apply defined_names_eq |]. split.
  - unfold attr_has_shape. rewrite getattr_files. by apply files_shape.
  - repeat split; by vm_compute.
Qed.

Lemma module_defines_schema_names_with_shapes_witness :
  defined_names "/Users/dev/alphasvg" = "os" :: "base_dir" :: schema_names
  ∧ attr_has_shape (module_globals "/Users/dev/alphasvg") "files"
      (is_dict_of is_abs_path is_str) = true
  ∧ attr_has_shape (module_globals "/Users/dev/alphasvg") "symlinks"
      (is_dict_of is_str is_str) = true
  ∧ attr_has_shape (module_globals "/Users/dev/alphasvg") "icon_locations"
      (is_dict_of is_str is_int_pair) = true
  ∧ attr_has_shape (module_globals "/Users/dev/alphasvg") "window_rect"
      is_pair_of_int_pairs = true
  ∧ attr_has_shape (module_globals "/Users/dev/alphasvg") "icon_size"
      is_int = true
  ∧ attr_has_shape (module_globals "/Users/dev/alphasvg") "volume_name"
      is_str = true.
Proof.
  apply (module_defines_schema_names_with_shapes "/Users/dev/alphasvg").
  reflexivity.
Defined.

(** ** Dependence on the working directory *)

(** [files] is a function of [base_dir]. *)
Lemma files_base_dir (cwd1 cwd2 : string) :
  base_dir cwd1 = base_dir cwd2 → files cwd1 = files cwd2.
Proof. unfold files. by intros ->. Qed.

(** [files] has the same value in two working directories exactly when
    [base_dir] has. *)
Lemma files_eq_iff (cwd1 cwd2 : string) :
  files cwd1 = files cwd2 ↔ base_dir cwd1 = base_dir cwd2.
Proof.
  split; [| apply files_base_dir].
  intros E.
  assert (files cwd2 !! posixpath.join (base_dir cwd1) "dist/gui_main.app"
          = Some "gui_main.app") as H.
  { rewrite <- E. apply files_lookup. by left. }
  apply files_lookup in H as [[H _] | [_ ?]]; [| done].
  by apply join_normpath_inj in H.
Qed.

Lemma str_str_dict_inj (m1 m2 : gmap string string) :
  str_str_dict m1 = str_str_dict m2 → m1 = m2.
Proof.
  intros H. apply map_to_list_inj.
  apply (f_equal (λ v, match v with VDict l => l | _ => [] end)) in H.
  simpl in H.
  assert (Inj (=) (=) (λ kv : string * string, (VStr kv.1, VStr kv.2))) as Hinj.
  { intros [a b] [c d] [= -> ->]. done. }
  apply (inj _) in H. by rewrite H.
Qed.

Lemma getattr_files_eq_iff (cwd1 cwd2 : string) :
  getattr (module_globals cwd1) "files" = getattr (module_globals cwd2) "files"
  ↔ base_dir cwd1 = base_dir cwd2.
Proof.
  rewrite !getattr_files, <- files_eq_iff. split.
  - intros H. apply str_str_dict_inj.
    by apply (f_equal (λ o, default (VInt 0) o)) in H.
  - by intros ->.
Qed.

Lemma files_dom (cwd : string) :
  dom (files cwd)
  = {[ posixpath.join (base_dir cwd) "dist/gui_main.app";
       posixpath.join (base_dir cwd) "dist/gui_main/_internal" ]}.
Proof. unfold files. rewrite !dom_insert_L, dom_empty_L. set_solver. Qed.

(** C6, as stated, fails: run in two different working directories, the
    module binds [files] to two different values. *)
Lemma files_differs_between_working_directories :
  ¬ (∀ cwd1 cwd2 n, n ∈ schema_names →
       getattr (module_globals cwd1) n = getattr (module_globals cwd2) n).
Proof.
  intros H.
  specialize (H "/Users/dev/alphasvg" "/tmp/build" "files").
  assert ("files" ∈ schema_names) as Hin by (unfold schema_names; set_solver).
  specialize (H Hin). rewrite !getattr_files in H.
  apply (f_equal (λ o, match o with
                       | Some (VDict ((VStr k, _) :: _)) => k
                       | _ => EmptyString
                       end)) in H.
  vm_compute in H. discriminate.
Qed.

(** C6, amended: [symlinks], [icon_locations], [window_rect], [icon_size]
    and [volume_name] have the same values in any two working directories;
    [files] has the same labels in both, its keys are [base_dir] joined with
    'dist/gui_main.app' and 'dist/gui_main/_internal', and it has the same
    value in both exactly when [base_dir] has. *)
Theorem settings_fixed_except_file_paths (cwd1 cwd2 : string) :
  (∀ n, n ∈ [ "symlinks"; "icon_locations"; "window_rect"; "icon_size";
              "volume_name" ] →
        getattr (module_globals cwd1) n = getattr (module_globals cwd2) n)
  ∧ content_labels cwd1 = content_labels cwd2
  ∧ dom (files cwd1)
    = {[ posixpath.join (base_dir cwd1) "dist/gui_main.app";
         posixpath.join (base_dir cwd1) "dist/gui_main/_internal" ]}
  ∧ (getattr (module_globals cwd1) "files"
     = getattr (module_globals cwd2) "files"
     ↔ base_dir cwd1 = base_dir cwd2).
Proof.
  split; [| split; [| split]].
  - intros n Hn.
    repeat (apply elem_of_cons in Hn as [-> | Hn]; [reflexivity |]).
    by apply elem_of_nil in Hn.
  - by rewrite !content_labels_eq.
  - apply files_dom.
  - apply getattr_files_eq_iff.
Qed.

Lemma settings_fixed_except_file_paths_witness :
  getattr (module_globals "/Users/dev/alphasvg") "files"
  = getattr (module_globals "/Users/dev/alphasvg/") "files".
Proof.
  apply (proj2 (proj2 (proj2 (proj2 (settings_fixed_except_file_paths
           "/Users/dev/alphasvg" "/Users/dev/alphasvg/"))))).
  reflexivity.
Defined.

(** ** The normal form of absolute paths *)

Section normal_form.

Lemma proper_comp_step (k : nat) (acc : list string) (c : string) :
  proper_comp c → posixpath.normpath_step k acc c = (acc ++ [c])%list.
Proof.
  intros [[Hne _] [Hd Hdd]]. unfold posixpath.normpath_step.
  apply String.eqb_neq in Hne, Hd, Hdd. by rewrite Hne, Hd, Hdd.
Qed.

Lemma proper_comp_fold (k : nat) (cs acc : list string) :
  Forall proper_comp cs →
  fold_left (posixpath.normpath_step k) cs acc = (acc ++ cs)%list.
Proof.
  intros H. revert acc. induction H as [|c cs Hc _ IH]; intros acc; simpl.
  - by rewrite app_nil_r.
  - rewrite proper_comp_step by done. rewrite IH. by rewrite <- app_assoc.
Qed.

Lemma last_is_dotdot_proper (acc : list string) :
  Forall proper_comp acc → posixpath.last_is_dotdot acc = false.
Proof.
  unfold posixpath.last_is_dotdot. intros H.
  destruct (last acc) as [c|] eqn:E; [| done].
  apply last_Some in E as [l' ->].
  apply Forall_app in H as [_ H]. inversion H as [|? ? [_ [_ Hdd]] _]; subst.
  by apply String.eqb_neq.
Qed.

Lemma Forall_removelast {A} (P : A → Prop) (l : list A) :
  Forall P l → Forall P (removelast l).
Proof.
  induction 1 as [|x l Hx Hl IH]; simpl; [done |].
  destruct l; [done | by constructor].
Qed.

(** From an absolute path, the loop of [normpath] only keeps proper
    components: '..' is never kept. *)
Lemma normpath_step_proper (k : nat) (acc : list string) (c : string) :
  has_sep c = false → Forall proper_comp acc →
  Forall proper_comp (posixpath.normpath_step (S k) acc c).
Proof.
  intros Hc Hacc. unfold posixpath.normpath_step.
  destruct (String.eqb c EmptyString) eqn:E1; simpl; [done |].
  destruct (String.eqb c ".") eqn:E2; simpl; [done |].
  rewrite (last_is_dotdot_proper acc Hacc), andb_false_r, orb_false_r.
  destruct (String.eqb c "..") eqn:E3; simpl.
  - destruct (negb _); [by apply Forall_removelast | done].
  - apply Forall_app. split; [done |]. constructor; [| done].
    apply String.eqb_neq in E1, E2, E3. by repeat split.
Qed.

Lemma normpath_fold_proper (k : nat) (cs acc : list string) :
  Forall (λ c, has_sep c = false) cs → Forall proper_comp acc →
  Forall proper_comp (fold_left (posixpath.normpath_step (S k)) cs acc).
Proof.
  revert acc. induction cs as [|c cs IH]; intros acc Hcs Hacc; simpl.
  - done.
  - inversion Hcs; subst. apply IH; [done |]. by apply normpath_step_proper.
Qed.

(** The normal form of an absolute path: one or two slashes, then proper
    components joined by single slashes. *)
Lemma normpath_abs_form (p : string) :
  posixpath.isabs p = true →
  ∃ k cs, (k = 1 ∨ k = 2)%nat ∧ Forall proper_comp cs
          ∧ posixpath.normpath p
            = posixpath.repeat_sep k +:+ posixpath.sep_join cs.
Proof.
  intros Habs. destruct (initial_slashes_pos p Habs) as [k Hk].
  pose proof (initial_slashes_le p) as Hle.
  exists (S k), (fold_left (posixpath.normpath_step (S k))
                   (posixpath.split_sep p) []).
  split; [lia |]. split.
  - apply normpath_fold_proper; [apply split_sep_no_sep | done].
  - unfold posixpath.normpath. rewrite Hk.
    destruct p as [|c p]; [done |]. done.
Qed.

Lemma split_sep_cons_sep (r : string) :
  posixpath.split_sep (String posixpath.sep r)
  = EmptyString :: posixpath.split_sep r.
Proof. done. Qed.

Lemma split_sep_nonnil (s : string) : posixpath.split_sep s ≠ [].
Proof.
  destruct s as [|c s]; simpl; [done |].
  destruct (Ascii.eqb c posixpath.sep); [done |].
  by destruct (posixpath.split_sep s).
Qed.

Lemma split_sep_append (c r : string) :
  has_sep c = false →
  posixpath.split_sep (c +:+ String posixpath.sep r)
  = c :: posixpath.split_sep r.
Proof.
  induction c as [|x c IH]; simpl; [done |].
  intros [Hx Hc]%orb_false_iff. rewrite Hx, IH by done. done.
Qed.

Lemma split_sep_join_dot (cs : list string) :
  cs ≠ [] → Forall proper_comp cs →
  posixpath.split_sep (posixpath.sep_join cs +:+ "/.") = (cs ++ ["."])%list.
Proof.
  intros Hnil H. induction H as [|c cs [[_ Hc] _] Hcs IH]; [done |].
  destruct cs as [|d cs].
  - simpl. by rewrite split_sep_append.
  - change (posixpath.sep_join (c :: d :: cs))
      with (c +:+ String posixpath.sep (posixpath.sep_join (d :: cs))).
    rewrite append_assoc.
    change (String posixpath.sep (posixpath.sep_join (d :: cs)) +:+ "/.")
      with (String posixpath.sep (posixpath.sep_join (d :: cs) +:+ "/.")).
    rewrite split_sep_append by done. by rewrite IH.
Qed.

Lemma sep_join_proper_head (cs : list string) :
  cs ≠ [] → Forall proper_comp cs →
  ∃ x r, posixpath.sep_join cs = String x r
         ∧ Ascii.eqb x posixpath.sep = false.
Proof.
  intros Hnil H. destruct H as [|c cs [[Hne Hc] _] _]; [done |].
  destruct c as [|x c]; [done |]. simpl in Hc.
  apply orb_false_iff in Hc as [Hx _].
  destruct cs; simpl; eauto.
Qed.

(** In a directory that is in normal form, [abspath('.')] is the directory
    itself. *)
Lemma abspath_dot_normal_form (k : nat) (cs : list string) :
  (k = 1 ∨ k = 2)%nat → Forall proper_comp cs →
  posixpath.abspath (posixpath.repeat_sep k +:+ posixpath.sep_join cs) "."
  = posixpath.repeat_sep k +:+ posixpath.sep_join cs.
Proof.
  intros Hk Hcs. destruct cs as [|c cs].
  - by destruct Hk as [-> | ->].
  - destruct (sep_join_ok (c :: cs)) as [Hne Hend].
    { eapply Forall_impl; [done |]. by intros ? [? _]. }
    { done. }
    destruct (sep_join_proper_head (c :: cs)) as (x & r & Hj & Hx);
      [done.. |].
    pose proof (split_sep_join_dot (c :: cs)) as Hsplit.
    pose proof (proper_comp_fold k (c :: cs) [] Hcs) as Hfold.
    unfold posixpath.abspath, posixpath.join. simpl posixpath.isabs.
    cbv iota.
    assert (String.eqb (posixpath.repeat_sep k
                        +:+ posixpath.sep_join (c :: cs)) EmptyString
            = false) as ->.
    { apply String.eqb_neq. by destruct Hk as [-> | ->]. }
    rewrite endswith_sep_append, Hend by done. simpl orb. cbv iota.
    simpl posixpath.startswith_sep. cbv iota.
    rewrite append_assoc.
    set (path := posixpath.repeat_sep k +:+ posixpath.sep_join (c :: cs)
                 +:+ String posixpath.sep ".").
    assert (posixpath.initial_slashes path = k) as Hslashes.
    { unfold path. rewrite Hj. destruct Hk as [-> | ->]; simpl; by rewrite Hx. }
    assert (posixpath.split_sep path
            = (replicate k EmptyString ++ (c :: cs) ++ ["."])%list) as Hsp.
    { specialize (Hsplit ltac:(done) Hcs). unfold path.
      destruct Hk as [-> | ->]; simpl posixpath.repeat_sep;
        rewrite ?append_assoc; simpl replicate;
        rewrite ?split_sep_cons_sep; by rewrite <- Hsplit. }
    assert (String.eqb path EmptyString = false) as Hpath.
    { apply String.eqb_neq. unfold path. by destruct Hk as [-> | ->]. }
    unfold posixpath.normpath. rewrite Hpath, Hslashes, Hsp.
    rewrite fold_left_app.
    assert (fold_left (posixpath.normpath_step k) (replicate k EmptyString) []
            = []) as -> by (by destruct Hk as [-> | ->]).
    rewrite fold_left_app, Hfold. simpl fold_left.
    change (posixpath.normpath_step k ([] ++ c :: cs)%list ".")
      with (c :: cs).
    destruct Hk as [-> | ->]; done.
Qed.

End normal_form.

(** ** The base directory *)

Lemma prefix_append (a b : string) : String.prefix a (a +:+ b) = true.
Proof.
  induction a as [|c a IH]; simpl; [by destruct b |].
  by destruct (ascii_dec c c).
Qed.

Lemma join_prefix (a b : string) :
  posixpath.startswith_sep b = false →
  String.prefix a (posixpath.join a b) = true.
Proof.
  intros Hb. destruct (join_relative a) as (pre & [-> | ->] & Hpre);
    rewrite Hpre by done.
  - apply prefix_append.
  - rewrite append_assoc. apply prefix_append.
Qed.

Lemma base_dir_normal_form (cwd : string) :
  posixpath.isabs cwd = true →
  ∃ k cs, (k = 1 ∨ k = 2)%nat ∧ Forall proper_comp cs
          ∧ base_dir cwd = posixpath.repeat_sep k +:+ posixpath.sep_join cs.
Proof.
  intros Habs. apply normpath_abs_form. simpl. by apply join_isabs.
Qed.

(** X1: run in an absolute working directory, [base_dir] is an absolute
    path. *)
Theorem base_dir_absolute (cwd : string) :
  posixpath.isabs cwd = true → posixpath.isabs (base_dir cwd) = true.
Proof. apply abspath_dot_isabs. Qed.

Lemma base_dir_absolute_witness :
  posixpath.isabs (base_dir "/Users/dev/alphasvg/dist/..") = true.
Proof. apply base_dir_absolute. reflexivity. Defined.

(** X2: in every working directory [base_dir] is a non-empty path, and it
    ends with a slash only when it is '/' or '//'. *)
Theorem base_dir_no_trailing_slash (cwd : string) :
  base_dir cwd ≠ EmptyString
  ∧ (posixpath.endswith_sep (base_dir cwd) = false
     ∨ base_dir cwd = "/" ∨ base_dir cwd = "//").
Proof.
  destruct (normpath_shape
              (if posixpath.isabs "." then "." else posixpath.join cwd "."))
    as [Hne Hend].
  split; [exact Hne |].
  destruct (posixpath.endswith_sep (base_dir cwd)) eqn:E; [| by left].
  right. by apply Hend.
Qed.

Lemma base_dir_normalized (cwd : string) :
  posixpath.isabs cwd = true → posixpath.normpath cwd = cwd →
  base_dir cwd = cwd.
Proof.
  intros Habs Hnorm.
  destruct (normpath_abs_form cwd Habs) as (k & cs & Hk & Hcs & E).
  rewrite Hnorm in E. rewrite E. by apply abspath_dot_normal_form.
Qed.

(** X3: when the working directory is an absolute path that [normpath]
    leaves unchanged, [base_dir] is the working directory itself. *)
Theorem base_dir_of_normalized_cwd (cwd : string) :
  posixpath.isabs cwd = true → posixpath.normpath cwd = cwd →
  base_dir cwd = cwd.
Proof. apply base_dir_normalized. Qed.

Lemma base_dir_of_normalized_cwd_witness :
  base_dir "/Users/dev/alphasvg" = "/Users/dev/alphasvg".
Proof. apply base_dir_of_normalized_cwd; reflexivity. Defined.

(** X4: run again from [base_dir], the module computes the same
    [base_dir]. *)
Theorem base_dir_idempotent (cwd : string) :
  posixpath.isabs cwd = true → base_dir (base_dir cwd) = base_dir cwd.
Proof.
  intros Habs.
  destruct (base_dir_normal_form cwd Habs) as (k & cs & Hk & Hcs & ->).
  by apply abspath_dot_normal_form.
Qed.

Lemma base_dir_idempotent_witness :
  base_dir (base_dir "/Users//dev/./alphasvg/")
  = base_dir "/Users//dev/./alphasvg/".
Proof. apply base_dir_idempotent. reflexivity. Defined.

(** ** The content mapping in every working directory *)

(** X5: in every working directory [files] has two entries, the two source
    paths never coincide, and looking up any other path finds nothing. *)
Theorem files_entries (cwd p : string) :
  size (files cwd) = 2
  ∧ files cwd !! p
    = if decide (p = posixpath.join (base_dir cwd) "dist/gui_main.app")
      then Some "gui_main.app"
      else if decide (p = posixpath.join (base_dir cwd)
                            "dist/gui_main/_internal")
           then Some "_internal"
           else None.
Proof.
  split; [apply files_size |].
  pose proof (files_keys_ne cwd) as Hne. unfold files.
  destruct (decide (p = _)) as [-> | H1].
  - rewrite lookup_insert_ne by done. by rewrite lookup_insert_eq.
  - destruct (decide (p = _)) as [-> | H2].
    + by rewrite lookup_insert_eq.
    + by rewrite !lookup_insert_ne, lookup_empty.
Qed.

(** X6: in every working directory each source path of [files] begins with
    [base_dir]. *)
Theorem files_keys_under_base_dir (cwd : string) :
  map_Forall (λ p _, String.prefix (base_dir cwd) p = true) (files cwd).
Proof.
  intros p l H. apply files_lookup in H as [[-> _] | [-> _]];
    by apply join_prefix.
Qed.

Lemma files_keys_under_base_dir_witness :
  String.prefix (base_dir "/") "/dist/gui_main.app" = true.
Proof.
  apply (files_keys_under_base_dir "/" "/dist/gui_main.app" "gui_main.app").
  by vm_compute.
Defined.

(** X7: when the working directory is an absolute path that [normpath]
    leaves unchanged and that does not end with a slash, the source paths
    of [files] are the working directory followed by '/dist/gui_main.app'
    and by '/dist/gui_main/_internal'. *)
Theorem files_in_normalized_cwd (cwd : string) :
  posixpath.isabs cwd = true → posixpath.normpath cwd = cwd →
  posixpath.endswith_sep cwd = false →
  files cwd
  = <[ cwd +:+ "/dist/gui_main/_internal" := "_internal" ]>
      (<[ cwd +:+ "/dist/gui_main.app" := "gui_main.app" ]> ∅).
Proof.
  intros Habs Hnorm Hend. unfold files.
  rewrite (base_dir_normalized cwd Habs Hnorm).
  unfold posixpath.join. simpl posixpath.startswith_sep. cbv iota.
  rewrite Hend, orb_false_r.
  destruct cwd as [|c cwd]; [done |]. done.
Qed.

Lemma files_in_normalized_cwd_witness :
  files "/Users/dev/alphasvg"
  = <[ "/Users/dev/alphasvg" +:+ "/dist/gui_main/_internal" := "_internal" ]>
      (<[ "/Users/dev/alphasvg" +:+ "/dist/gui_main.app" := "gui_main.app" ]>
         ∅).
Proof. apply files_in_normalized_cwd; reflexivity. Defined.

(** ** Labels and icons *)

(** X8: in every working directory no label is both a content label and a
    symlink label, and [icon_locations] has as many entries as [files] and
    [symlinks] together. *)
Theorem labels_disjoint_and_counted (cwd : string) :
  content_labels cwd ## symlink_labels
  ∧ size icon_locations = size (files cwd) + size symlinks.
Proof.
  split.
  - rewrite content_labels_eq, symlink_labels_eq. set_solver.
  - rewrite files_size. by vm_compute.
Qed.

(** X9: any two distinct icons of [icon_locations] are at least [icon_size]
    apart horizontally or vertically. *)
Theorem icons_do_not_overlap (l1 l2 : string) (p1 p2 : Z * Z) :
  icon_locations !! l1 = Some p1 → icon_locations !! l2 = Some p2 →
  l1 ≠ l2 →
  (icon_size ≤ Z.abs (p1.1 - p2.1) ∨ icon_size ≤ Z.abs (p1.2 - p2.2))%Z.
Proof.
  intros H1 H2 Hne.
  apply icon_locations_lookup in H1 as [[-> ->] | [[-> ->] | [-> ->]]];
    apply icon_locations_lookup in H2 as [[-> ->] | [[-> ->] | [-> ->]]];
    try done; unfold icon_size; simpl; lia.
Qed.

Lemma icons_do_not_overlap_witness :
  (icon_size ≤ Z.abs (140 - 300) ∨ icon_size ≤ Z.abs (120 - 400))%Z.
Proof.
  apply (icons_do_not_overlap "gui_main.app" "_internal"
           (140, 120)%Z (300, 400)%Z); by vm_compute.
Defined.
